(** * Unified resource storage: the search index server

    A shallow embedding of

    - [pkg/storage/unified/resource/index_server.go]: the index server
      ([indexServer]), the sink that bridges watch events into the index
      ([indexWatchServer]) and [getGroup];
    - [pkg/storage/unified/sql/server.go]: [NewResourceServer].

    Go values are modelled as follows.  A [string] is a sequence of bytes
    (Rocq's [string] of 8-bit [ascii]); [[]byte] is [list byte]; [int64] is
    [Z] (the code only copies version numbers, it never computes on them);
    a pointer that the code tests against, or leaves at, [nil] is an
    [option]; an [error] is [option error] with [None] for [nil].  Methods
    with a pointer receiver pass the receiver's state explicitly.  Request
    and event messages are taken to be there (not [nil]), as the transport
    hands them over. *)

From Stdlib Require Import ZArith String Ascii List Lia.
From Stdlib.Strings Require Byte.
From stdpp Require Import base option list strings gmap.

Local Open Scope string_scope.

(** ** The part of Go's [strings] package that [getGroup] calls *)

Module GoStrings.

(** [strings.Index]: the byte offset of the first instance of [substr]
    in [s], if there is one. *)
Definition Index (s substr : string) : option nat := String.index 0 substr s.

(** [s[m:]] *)
Definition slice_from (m : nat) (s : string) : string :=
  String.substring m (String.length s - m) s.

(** [s[:m]] *)
Definition slice_to (m : nat) (s : string) : string :=
  String.substring 0 m s.

(** [strings.Count] for a non-empty [substr]: the loop
    [for { i := Index(s, substr); if i == -1 { return n }; n++;
           s = s[i+len(substr):] }].
    Every round drops at least one byte of [s], so [fuel] rounds suffice
    when [fuel] exceeds the length of [s]. *)
Fixpoint Count_loop (fuel : nat) (s substr : string) : nat :=
  match fuel with
  | O => O
  | S fuel' =>
      match Index s substr with
      | None => O
      | Some i => S (Count_loop fuel' (slice_from (i + String.length substr) s) substr)
      end
  end.

Definition Count (s substr : string) : nat :=
  Count_loop (S (String.length s)) s substr.

(** The loop of [genSplit] (with [sepSave = 0]): at most [n] cuts, then
    the rest of the string is the last element. *)
Fixpoint genSplit_loop (n : nat) (s sep : string) : list string :=
  match n with
  | O => [s]
  | S n' =>
      match Index s sep with
      | None => [s]
      | Some m => slice_to m s :: genSplit_loop n' (slice_from (m + String.length sep) s) sep
      end
  end.

(** [strings.Split(s, sep)] is [genSplit(s, sep, 0, -1)].  For a
    non-empty [sep] that is: [n = Count(s, sep) + 1] slots, [n - 1]
    rounds of the loop.  (An empty [sep] takes the other path of
    [genSplit], which explodes [s] into UTF-8 sequences; [getGroup] never
    takes it and it is not modelled.) *)
Definition Split (s sep : string) : list string :=
  genSplit_loop (Count s sep) s sep.

End GoStrings.

(** ** Package [resource] *)

Module resource.

Definition error : Type := string.

Record ResourceKey := {
  Group : string;
  Resource_ : string;
  Namespace : string;
  Name : string
}.

Record ResourceWrapper := {
  ResourceVersion : Z;
  Value : list Byte.byte
}.

Record ResourceMetadata := {
  md_Namespace : string;
  md_Name : string
}.

(** The decoded form of a stored value, with the fields the bridge reads. *)
Record Resource := {
  ApiVersion : string;
  Kind : string;
  Metadata : ResourceMetadata
}.

Definition getGroup (r : Resource) : string :=
  let v := GoStrings.Split (ApiVersion r) "/" in
  if (0 <? length v)%nat then nth 0 v EmptyString else EmptyString.

(** *** Messages

    The generated protobuf types are declared outside [index_server.go];
    they are given here with the fields this file reads or writes. *)

Record WatchEvent_Resource := {
  Version : Z;
  we_Value : list Byte.byte
}.

Inductive WatchEvent_Type := UNKNOWN | ADDED | MODIFIED | DELETED | BOOKMARK | ERROR.

Record WatchEvent := {
  Type_ : WatchEvent_Type;
  we_Resource : WatchEvent_Resource
}.

Record IndexRequest := {
  req_Key : option ResourceKey;
  req_Value : option ResourceWrapper
}.

Record IndexResponse := {}.
Record HistoryRequest := {}.
Record HistoryResponse := {}.
Record OriginRequest := {}.
Record OriginResponse := {}.

Record ListOptions := { lo_Key : option ResourceKey }.
Record WatchRequest := { Options : option ListOptions }.

Record SearchRequest := { Query : string }.

(** Modelled from the spec: the declaration of [SearchResponse] is not in
    [index_server.go]; a response "returns matching documents", so it is
    a list of them, empty in the zero value [&SearchResponse{}]. *)
Record SearchResponse := { Items : list ResourceWrapper }.

Record Opts := {}.

Record Data := {
  Key : option ResourceKey;
  Value_ : option ResourceWrapper
}.

(** A function that returns [(T, error)] with exactly one of the two set. *)
Inductive result (T : Type) := Ok (t : T) | Err (e : error).
Arguments Ok {T} t.
Arguments Err {T} e.

(** *** What [index_server.go] calls but does not define

    [Index], [NewIndex], [Index.Init] and [Index.Index] live in
    [index.go], [server] and its [Watch] in [server.go], [getResource]
    and [context.Context] elsewhere.  They stay parameters.  A method on
    [*Index] takes the index it points to and gives back the index it
    leaves there; [is.index.Index] can be called while [is.index] is
    still [nil], so its receiver is an [option].  [Watch] delivers events
    by calling [Send] on the stream it is given and threads that
    stream's state, whatever it is, through the calls. *)
Class Deps := {
  server : Type;
  context_Context : Type;
  IndexT : Type;
  NewIndex : option server -> Opts -> IndexT;
  Index_Init : IndexT -> IndexT * option error;
  Index_Index : option IndexT -> Data -> option IndexT * option error;
  getResource : list Byte.byte -> result Resource;
  server_Watch :
    forall S : Type, server -> WatchRequest ->
      (WatchEvent -> S -> option error * S) -> S -> option error * S
}.

Section IndexServer.
Context `{D : Deps}.

(** [indexWatchServer.is] points back to the index server that owns the
    stream; the methods below take that index server as their state. *)
Record indexWatchServer := {
  context : option context_Context
}.

Record indexServer := {
  s : option server;
  index : option IndexT;
  ws : option indexWatchServer
}.

Definition set_s (v : option server) (isv : indexServer) : indexServer :=
  {| s := v; index := index isv; ws := ws isv |}.
Definition set_index (v : option IndexT) (isv : indexServer) : indexServer :=
  {| s := s isv; index := v; ws := ws isv |}.
Definition set_ws (v : option indexWatchServer) (isv : indexServer) : indexServer :=
  {| s := s isv; index := index isv; ws := v |}.

(** The calls made to the parameters above, in the order they happen. *)
Inductive call :=
| Call_NewIndex (srv : option server) (o : Opts)
| Call_Index_Init
| Call_Index_Index (d : Data)
| Call_getResource (v : list Byte.byte)
| Call_Watch (rs : server) (wr : WatchRequest).

Record state := {
  is_ : indexServer;
  calls : list call
}.

(** A computation on the index server that records its calls. *)
Definition M (A : Type) : Type := state -> A * state.

Definition ret {A} (a : A) : M A := fun st => (a, st).
Definition bind {A B} (m : M A) (f : A -> M B) : M B :=
  fun st => let '(a, st') := m st in f a st'.
Definition get_is : M indexServer := fun st => (is_ st, st).
Definition modify_is (f : indexServer -> indexServer) : M unit :=
  fun st => (tt, {| is_ := f (is_ st); calls := calls st |}).
Definition record (c : call) : M unit :=
  fun st => (tt, {| is_ := is_ st; calls := calls st ++ [c] |}).

Notation "x <- m ;; k" := (bind m (fun x => k))
  (at level 100, m at next level, right associativity).
Notation "m ;;; k" := (bind m (fun _ => k))
  (at level 100, right associativity).

Definition NewResourceIndexServer : indexServer :=
  {| s := None; index := None; ws := None |}.

Definition Search (req : SearchRequest) : M (option SearchResponse * option error) :=
  let res := {| Items := [] |} in
  ret (Some res, None).

Definition History (req : HistoryRequest) : M (option HistoryResponse * option error) :=
  ret (None, None).

Definition Origin (req : OriginRequest) : M (option OriginResponse * option error) :=
  ret (None, None).

Definition Index (req : IndexRequest) : M (option IndexResponse * option error) :=
  match req_Key req with
  | None =>
      isv <- get_is ;;
      record (Call_NewIndex (s isv) Build_Opts) ;;;
      modify_is (set_index (Some (NewIndex (s isv) Build_Opts))) ;;;
      record Call_Index_Init ;;;
      let '(i, err) := Index_Init (NewIndex (s isv) Build_Opts) in
      modify_is (set_index (Some i)) ;;;
      match err with
      | Some e => ret (None, Some e)
      | None => ret (None, None)
      end
  | Some _ =>
      isv <- get_is ;;
      let d := {| Key := req_Key req; Value_ := req_Value req |} in
      record (Call_Index_Index d) ;;;
      let '(i, err) := Index_Index (index isv) d in
      modify_is (set_index i) ;;;
      match err with
      | Some e => ret (None, Some e)
      | None => ret (None, None)
      end
  end.

Definition Send (we : WatchEvent) : M (option error) :=
  record (Call_getResource (we_Value (we_Resource we))) ;;;
  match getResource (we_Value (we_Resource we)) with
  | Err e => ret (Some e)
  | Ok r =>
      let key := {| Group := getGroup r;
                    Resource_ := Kind r;
                    Namespace := md_Namespace (Metadata r);
                    Name := md_Name (Metadata r) |} in
      let value := {| ResourceVersion := Version (we_Resource we);
                      Value := we_Value (we_Resource we) |} in
      res <- Index {| req_Key := Some key; req_Value := Some value |} ;;
      match snd res with
      | Some e => ret (Some e)
      | None => ret None
      end
  end.

Definition watch_request : WatchRequest :=
  {| Options := Some {| lo_Key := Some {| Group := "playlist.grafana.app";
                                          Resource_ := "playlists";
                                          Namespace := EmptyString;
                                          Name := EmptyString |} |} |}.

(** The body of the goroutine that [Init] starts: [rs.Watch(wr, is.ws)],
    whose result the goroutine assigns to [err]. *)
Definition Init_goroutine (rs : server) : M (option error) :=
  record (Call_Watch rs watch_request) ;;;
  fun st => server_Watch state rs watch_request Send st.

(** [Init] returns [err] right after the [go] statement, with nothing
    that waits for the goroutine.  What [return err] reads depends on
    how far the goroutine got.  [ReturnBeforeWatchEnds]: the goroutine is
    still inside [Watch] (or has not started), [err] holds its zero value
    and everything the goroutine does comes after the return.
    [WatchEndsBeforeReturn]: the watch has ended and its result has been
    assigned to [err] and is what [return err] reads. *)
Inductive schedule :=
| ReturnBeforeWatchEnds
| WatchEndsBeforeReturn.

Definition Init (ctx : context_Context) (rs : server) (sch : schedule) : M (option error) :=
  modify_is (set_s (Some rs)) ;;;
  modify_is (set_ws (Some {| context := Some ctx |})) ;;;
  match sch with
  | ReturnBeforeWatchEnds => ret None
  | WatchEndsBeforeReturn => err <- Init_goroutine rs ;; ret err
  end.

End IndexServer.

End resource.

(** ** Package [sql] *)

Module sql.
Import resource.

Record BackendOptions (P T : Type) := {
  DBProvider : P;
  bo_Tracer : T
}.
Arguments DBProvider {P T} _.
Arguments bo_Tracer {P T} _.

(** [resource.ResourceServerOptions], with the fields [NewResourceServer]
    sets. *)
Record ResourceServerOptions (T B I : Type) := {
  Tracer_ : T;
  Backend : option B;
  Diagnostics : option B;
  Lifecycle : option B;
  Index_ : option I
}.
Arguments Tracer_ {T B I} _.
Arguments Backend {T B I} _.
Arguments Diagnostics {T B I} _.
Arguments Lifecycle {T B I} _.
Arguments Index_ {T B I} _.

(** What [server.go] calls but does not define: the database provider,
    the backend, the feature toggles, and from package [resource] the
    constructor of the façade and the façade's [Index] method (which may
    change the façade it is called on). *)
Class Env `{D : Deps} := {
  DB : Type;
  Cfg : Type;
  FeatureToggles : Type;
  Tracer : Type;
  ResourceDBProvider : Type;
  backend : Type;
  FlagUnifiedStorageSearch : string;
  ProvideResourceDB : DB -> Cfg -> FeatureToggles -> Tracer -> result ResourceDBProvider;
  NewBackend : BackendOptions ResourceDBProvider Tracer -> result backend;
  IsEnabledGlobally : FeatureToggles -> string -> bool;
  resource_NewResourceServer :
    ResourceServerOptions Tracer backend indexServer -> result server;
  server_Index : server -> IndexRequest -> server * (option IndexResponse * option error)
}.

Section Server.
Context `{E : Env}.

Definition base_opts (tracer : Tracer) (store : backend)
  : ResourceServerOptions Tracer backend indexServer :=
  {| Tracer_ := tracer;
     Backend := Some store;
     Diagnostics := Some store;
     Lifecycle := Some store;
     Index_ := None |}.

Definition with_index (o : ResourceServerOptions Tracer backend indexServer)
    (i : indexServer) : ResourceServerOptions Tracer backend indexServer :=
  {| Tracer_ := Tracer_ o;
     Backend := Backend o;
     Diagnostics := Diagnostics o;
     Lifecycle := Lifecycle o;
     Index_ := Some i |}.

(** Creates a new ResourceServer.  The result is Go's pair
    [(resource.ResourceServer, error)]. *)
Definition NewResourceServer (db : DB) (cfg : Cfg) (features : FeatureToggles)
    (tracer : Tracer) : option server * option error :=
  match ProvideResourceDB db cfg features tracer with
  | Err err => (None, Some err)
  | Ok eDB =>
      match NewBackend {| DBProvider := eDB; bo_Tracer := tracer |} with
      | Err err => (None, Some err)
      | Ok store =>
          let opts := base_opts tracer store in
          if IsEnabledGlobally features FlagUnifiedStorageSearch then
            let opts := with_index opts NewResourceIndexServer in
            match resource_NewResourceServer opts with
            | Err err => (None, Some err)
            | Ok srv =>
                let '(srv', (_, err)) :=
                  server_Index srv {| req_Key := None; req_Value := None |} in
                (Some srv', err)
            end
          else
            match resource_NewResourceServer opts with
            | Err err => (None, Some err)
            | Ok srv => (Some srv, None)
            end
      end
  end.

End Server.

End sql.

(** ** The parts of the repository that are specified but not in these files *)

#[global] Instance ResourceKey_eq_dec : EqDecision resource.ResourceKey.
Proof. solve_decision. Defined.

#[global] Instance ResourceKey_countable : Countable resource.ResourceKey.
Proof.
  refine (inj_countable'
            (fun k => (resource.Group k, resource.Resource_ k,
                       resource.Namespace k, resource.Name k))
            (fun t => let '(g, r, n, m) := t in
                      resource.Build_ResourceKey g r n m) _).
  intros []; reflexivity.
Defined.

Module SpecIndex.
Import resource.

(** The index's working set: one document per key. *)
Record IndexDocument := {
  doc_key : ResourceKey;
  doc_version : Z;
  doc_value : list Byte.byte
}.

Definition document (k : ResourceKey) (v : ResourceWrapper) : IndexDocument :=
  {| doc_key := k; doc_version := ResourceVersion v; doc_value := Value v |}.

(** Modelled from the spec: [Index.Index] is defined in [index.go], which
    is not among the files.  "Idempotent upsert; discards events older
    than or equal to the currently stored version for that key"; "at most
    one document per ResourceKey". *)
Definition Index (idx : gmap ResourceKey IndexDocument)
    (k : ResourceKey) (v : ResourceWrapper) : gmap ResourceKey IndexDocument :=
  match idx !! k with
  | Some d =>
      if (ResourceVersion v <=? doc_version d)%Z then idx
      else <[k := document k v]> idx
  | None => <[k := document k v]> idx
  end.

End SpecIndex.

Module SpecBackend.
Import resource.

Inductive write_result :=
| Written (version : Z)
| ConflictError
| StorageError.

(** The version history of every key, oldest first. *)
Definition latest (b : gmap ResourceKey (list ResourceWrapper)) (k : ResourceKey)
    : option Z :=
  match b !! k with
  | Some h => ResourceVersion <$> last h
  | None => None
  end.

Definition history (b : gmap ResourceKey (list ResourceWrapper)) (k : ResourceKey)
    : list ResourceWrapper :=
  default [] (b !! k).

(** Modelled from the spec: [Backend.Write] is defined in the backend of
    package [sql], which is not among the files.
    "Write(key, value, expectedVersion?) -> version | ConflictError |
    StorageError": "fails with ConflictError if an optimistic-concurrency
    precondition is supplied and does not match the latest stored
    version"; "fails with StorageError on underlying I/O failure; no
    partial writes are ever visible"; otherwise it "constructs a new
    version, assigns it a strictly increasing number scoped per key" and
    appends it to the key's history.  [io_ok] says whether the storage
    provider underneath accepts the write. *)
Definition Write (io_ok : bool) (b : gmap ResourceKey (list ResourceWrapper))
    (k : ResourceKey) (value : list Byte.byte) (expectedVersion : option Z)
    : write_result * gmap ResourceKey (list ResourceWrapper) :=
  let matches :=
    match expectedVersion with
    | None => true
    | Some e => bool_decide (latest b k = Some e)
    end in
  if negb matches then (ConflictError, b)
  else if negb io_ok then (StorageError, b)
  else
    let version := (default 0 (latest b k) + 1)%Z in
    (Written version,
     <[k := (history b k ++ [{| ResourceVersion := version; Value := value |}])%list]> b).

End SpecBackend.

Module SpecWatch.
Import resource.

(** Modelled from the spec: [server.Watch] is defined in [server.go] of
    package [resource], which is not among the files.  "Delivers events
    from the moment of registration onward"; "a subscriber that errors
    while receiving is unregistered; its error is surfaced to whatever
    initiated the subscription"; the stream "terminates on cancellation
    or fatal error".  [events] are the events that match the request and
    arrive while the subscription is open, [final] is how the stream ends
    when all of them were delivered. *)
Fixpoint Watch {S : Type} (events : list WatchEvent) (final : option error)
    (send : WatchEvent -> S -> option error * S) (st : S) : option error * S :=
  match events with
  | [] => (final, st)
  | we :: rest =>
      let '(err, st') := send we st in
      match err with
      | Some e => (Some e, st')
      | None => Watch rest final send st'
      end
  end.

End SpecWatch.

(** ** A concrete instance of the parameters

    Used to run the definitions above on examples.  The façade is reduced
    to what the index server sees of it: the events its watch delivers, how
    the watch ends, and whether a scan of it succeeds.  The index is the
    document set of [SpecIndex] together with the server it was built for,
    the watch is the loop of [SpecWatch], and decoding fails on an empty
    value (as decoding JSON does) and otherwise reads the value as the
    apiVersion and name of a playlist. *)

Module Fixture.
Import resource.

Record test_server := {
  events : list WatchEvent;
  final : option error;
  scan : option error
}.

Record test_index := {
  owner : option test_server;
  docs : gmap ResourceKey SpecIndex.IndexDocument
}.

Definition decode (v : list Byte.byte) : result Resource :=
  match v with
  | [] => Err "unexpected end of JSON input"
  | _ => Ok {| ApiVersion := string_of_list_byte v;
               Kind := "Playlist";
               Metadata := {| md_Namespace := "default";
                              md_Name := string_of_list_byte v |} |}
  end.

Definition init (i : test_index) : test_index * option error :=
  match owner i with
  | None => (i, Some "no resource server")
  | Some srv => (i, scan srv)
  end.

Definition upsert (i : option test_index) (d : Data) : option test_index * option error :=
  match i, Key d, Value_ d with
  | Some i, Some k, Some v =>
      (Some {| owner := owner i; docs := SpecIndex.Index (docs i) k v |}, None)
  | None, _, _ => (None, Some "index is not initialized")
  | _, _, _ => (i, Some "missing key or value")
  end.

#[export] Instance deps : Deps := {|
  server := test_server;
  context_Context := unit;
  IndexT := test_index;
  NewIndex := fun srv _ => {| owner := srv; docs := ∅ |};
  Index_Init := init;
  Index_Index := upsert;
  getResource := decode;
  server_Watch := fun S srv _ send st => SpecWatch.Watch (events srv) (final srv) send st
|}.

(** The constructor's surroundings: the search toggle is the feature
    set itself, the façade is built from the database handle, and the
    façade's [Index] reports what a scan of it reports. *)
#[export] Instance env : sql.Env := {|
  sql.DB := test_server;
  sql.Cfg := unit;
  sql.FeatureToggles := bool;
  sql.Tracer := unit;
  sql.ResourceDBProvider := test_server;
  sql.backend := test_server;
  sql.FlagUnifiedStorageSearch := "unifiedStorageSearch";
  sql.ProvideResourceDB := fun db _ _ _ => Ok db;
  sql.NewBackend := fun o => Ok (sql.DBProvider o);
  sql.IsEnabledGlobally := fun f _ => f;
  sql.resource_NewResourceServer :=
    fun o => match sql.Backend o with
             | Some b => Ok b
             | None => Err "missing backend"
             end;
  sql.server_Index := fun srv _ => (srv, (None, scan srv))
|}.

Definition value_of (str : string) : list Byte.byte := list_byte_of_string str.

Definition event (version : Z) (str : string) : WatchEvent :=
  {| Type_ := ADDED; we_Resource := {| Version := version; we_Value := value_of str |} |}.

Definition quiet : test_server := {| events := []; final := None; scan := None |}.

Definition failing_watch : test_server :=
  {| events := []; final := Some "watch stream failed"; scan := None |}.

Definition failing_scan : test_server :=
  {| events := []; final := None; scan := Some "scan failed" |}.

Definition bad : WatchEvent := event 1 EmptyString.
Definition good : WatchEvent := event 2 "playlist.grafana.app/v0alpha1".

Definition bad_then_good : test_server :=
  {| events := [bad; good]; final := None; scan := None |}.

Definition start : state :=
  {| is_ := NewResourceIndexServer; calls := [] |}.

Definition key (g n : string) : ResourceKey :=
  {| Group := g; Resource_ := "Playlist"; Namespace := "default"; Name := n |}.

(** The index server after [Init] has wired it to [srv] (and returned),
    and after the control call without a key that follows. *)
Definition wired (srv : test_server) : state :=
  snd (Init tt srv ReturnBeforeWatchEnds start).

Definition initialized (srv : test_server) : state :=
  snd (Index {| req_Key := None; req_Value := None |} (wired srv)).

(** An index server that holds an index with one document, built while
    scans still succeeded, and whose server's scans now fail. *)
Definition built_then_failing : state :=
  {| is_ := {| s := Some failing_scan;
               index := Some {| owner := Some quiet;
                                docs := {[ key "playlist.grafana.app" "p1" :=
                                             SpecIndex.document
                                               (key "playlist.grafana.app" "p1")
                                               {| ResourceVersion := 7;
                                                  Value := value_of "p1" |} ]} |};
               ws := Some {| context := Some tt |} |};
     calls := [] |}.

End Fixture.

(** ** Notions used to state the properties *)

(** The bytes of [s] up to the first [c], which is left out. *)
Fixpoint before (c : ascii) (s : string) : string :=
  match s with
  | EmptyString => EmptyString
  | String a s' => if Ascii.eqb a c then EmptyString else String a (before c s')
  end.

Definition one (c : ascii) : string := String c EmptyString.

(** The bytes of [s] after the first [c]; nothing when there is no [c]. *)
Fixpoint after (c : ascii) (s : string) : string :=
  match s with
  | EmptyString => EmptyString
  | String a s' => if Ascii.eqb a c then s' else after c s'
  end.

(** How many bytes of [s] are [c]. *)
Fixpoint occurrences (c : ascii) (s : string) : nat :=
  match s with
  | EmptyString => O
  | String a s' => (if Ascii.eqb a c then 1 else 0) + occurrences c s'
  end.

(** The segments of [s] between its [c]s, by recursion on [s]: a byte
    other than [c] extends the first segment of the rest. *)
Definition extend (a : ascii) (segs : list string) : list string :=
  match segs with
  | [] => [String a EmptyString]
  | seg :: segs' => String a seg :: segs'
  end.

Fixpoint segments (c : ascii) (s : string) : list string :=
  match s with
  | EmptyString => [EmptyString]
  | String a s' =>
      if Ascii.eqb a c then EmptyString :: segments c s'
      else extend a (segments c s')
  end.

(** The request of the constructor's control call: no key, no value. *)
Definition init_request : resource.IndexRequest :=
  {| resource.req_Key := None; resource.req_Value := None |}.

Section Notions.
Import resource.
Context `{D : Deps}.

Definition holding (i : option IndexT) (st : state) : state :=
  {| is_ := set_index i (is_ st); calls := calls st |}.

Definition logged (cs : list call) (st : state) : state :=
  {| is_ := is_ st; calls := calls st ++ cs |}.

(** The key and the document that [Send] builds from an event and its
    decoded resource. *)
Definition key_of (r : Resource) : ResourceKey :=
  {| Group := getGroup r;
     Resource_ := Kind r;
     Namespace := md_Namespace (Metadata r);
     Name := md_Name (Metadata r) |}.

Definition document_of (we : WatchEvent) (r : Resource) : Data :=
  {| Key := Some (key_of r);
     Value_ := Some {| ResourceVersion := Version (we_Resource we);
                       Value := we_Value (we_Resource we) |} |}.

(** The ingestion of [we] into the index held in [st] fails with [e]:
    its value does not decode, or the upsert of its document fails. *)
Definition ingestion_fails (we : WatchEvent) (st : state) (e : error) : Prop :=
  getResource (we_Value (we_Resource we)) = Err e \/
  exists r, getResource (we_Value (we_Resource we)) = Ok r /\
            snd (Index_Index (index (is_ st)) (document_of we r)) = Some e.

End Notions.

(** ** More of [index_server.go]: the stream's context, and runs of calls *)

Section MoreIndexServer.
Import resource.
Context `{D : Deps}.

(** [indexWatchServer.Context]: [background] is [context.Background()].
    The method stores the background context in the stream when the stream
    has none, and returns the stream's context. *)
Definition Context_ (background : context_Context) (f : indexWatchServer)
    : context_Context * indexWatchServer :=
  match context f with
  | None => (background, {| context := Some background |})
  | Some c => (c, f)
  end.

(** [indexWatchServer.RecvMsg] and [indexWatchServer.SendMsg]. *)
Definition RecvMsg (f : indexWatchServer) : option error := None.

Definition SendMsg (f : indexWatchServer) : option error := Some "not implemented".

(** A call of one of the index server's request methods, or a delivery to
    its stream's [Send]; [serve] is the state such a call leaves, and
    [serve_all] the state after a sequence of calls, one after the other. *)
Inductive request :=
| Req_Search (req : SearchRequest)
| Req_History (req : HistoryRequest)
| Req_Origin (req : OriginRequest)
| Req_Index (req : IndexRequest)
| Req_Send (we : WatchEvent).

Definition serve (q : request) (st : state) : state :=
  match q with
  | Req_Search req => snd (Search req st)
  | Req_History req => snd (History req st)
  | Req_Origin req => snd (Origin req st)
  | Req_Index req => snd (Index req st)
  | Req_Send we => snd (Send we st)
  end.

Definition serve_all (qs : list request) (st : state) : state :=
  fold_left (fun st q => serve q st) qs st.

End MoreIndexServer.

(** ** More of [sql/server.go]: both modes of the constructor *)

Section MoreServer.
Import resource sql.
Context `{E : Env}.

(** The options [NewResourceServer] has assembled when it calls the
    constructor of the façade: the index server is added in indexed mode
    only. *)
Definition facade_options (features : FeatureToggles) (tracer : Tracer) (store : backend)
    : ResourceServerOptions Tracer backend indexServer :=
  if IsEnabledGlobally features FlagUnifiedStorageSearch
  then with_index (base_opts tracer store) NewResourceIndexServer
  else base_opts tracer store.

End MoreServer.

(** ** [MermaidExportModal/index.tsx]: the set of highlighted spans

    The component keeps [highlights], a list of span ids that starts empty
    ([useState([])]), and installs [window.mermaidToggleSpan], which a click
    on a span calls with that span's id.  The handler computes the next
    list from the list of the render it was installed in; the component
    renders again with that list before the next click. *)

Module MermaidExportModal.

(** [highlights.includes(spanId)] *)
Definition includes (highlights : list string) (spanId : string) : bool :=
  existsb (String.eqb spanId) highlights.

(** The list that [mermaidToggleSpan(spanId)] hands to [setHighlights]:
    [highlights.filter((s) => s !== spanId)] when the id is highlighted,
    [[...highlights, spanId]] when it is not. *)
Definition mermaidToggleSpan (highlights : list string) (spanId : string) : list string :=
  if includes highlights spanId then
    List.filter (fun s => negb (String.eqb s spanId)) highlights
  else
    (highlights ++ [spanId])%list.

(** The highlights after a sequence of clicks, each rendered before the
    next. *)
Definition clicks (spanIds : list string) (highlights : list string) : list string :=
  fold_left mermaidToggleSpan spanIds highlights.

(** [useState<string[]>([])] *)
Definition initial_highlights : list string := [].

End MermaidExportModal.

(** * Properties *)

(** ** [strings.Split] on a one-byte separator *)

Section SplitFacts.
Import GoStrings.

Lemma Index_nil (c : ascii) : Index EmptyString (one c) = None.
Proof. reflexivity. Qed.

Lemma Index_cons (c a : ascii) (s : string) :
  Index (String a s) (one c) =
    if Ascii.eqb a c then Some 0%nat else S <$> Index s (one c).
Proof.
  unfold Index, one. simpl.
  destruct (ascii_dec c a) as [->|Hne].
  - rewrite Ascii.eqb_refl. now destruct s.
  - destruct (Ascii.eqb_spec a c) as [->|_]; [congruence|].
    now destruct (String.index 0 (String c EmptyString) s).
Qed.

Lemma substring_all (s : string) : String.substring 0 (String.length s) s = s.
Proof. induction s as [|a s IH]; simpl; [reflexivity|now rewrite IH]. Qed.

Lemma Index_None_before (c : ascii) (s : string) :
  Index s (one c) = None -> before c s = s.
Proof.
  induction s as [|a s IH]; [reflexivity|].
  rewrite Index_cons. simpl.
  destruct (Ascii.eqb a c); [discriminate|].
  destruct (Index s (one c)); [discriminate|].
  intros _. now rewrite IH.
Qed.

Lemma Index_Some_before (c : ascii) (s : string) (m : nat) :
  Index s (one c) = Some m -> slice_to m s = before c s.
Proof.
  revert m. induction s as [|a s IH]; intros m; [discriminate|].
  rewrite Index_cons. simpl.
  destruct (Ascii.eqb a c).
  - intros [= <-]. reflexivity.
  - destruct (Index s (one c)) as [m'|] eqn:E; [|discriminate].
    intros [= <-]. unfold slice_to in *. simpl. now rewrite (IH m').
Qed.

Lemma genSplit_loop_nonempty (n : nat) (s sep : string) :
  (0 < length (genSplit_loop n s sep))%nat.
Proof.
  destruct n as [|n]; simpl; [lia|].
  destruct (Index s sep); simpl; lia.
Qed.

Lemma Split_nonempty (s sep : string) : (0 < length (Split s sep))%nat.
Proof. apply genSplit_loop_nonempty. Qed.

Lemma Split_head (c : ascii) (s : string) :
  exists rest, Split s (one c) = before c s :: rest.
Proof.
  unfold Split, Count. simpl.
  destruct (Index s (one c)) as [m|] eqn:E.
  - simpl. rewrite E. rewrite (Index_Some_before _ _ _ E). eauto.
  - simpl. rewrite (Index_None_before _ _ E). eauto.
Qed.

Lemma before_split (c : ascii) (s : string) :
  exists rest, s = (before c s ++ rest)%string /\
               (rest = EmptyString \/ exists t, rest = String c t).
Proof.
  induction s as [|a s (rest & IH & Hrest)]; simpl.
  - exists EmptyString. auto.
  - destruct (Ascii.eqb_spec a c) as [->|Hne].
    + exists (String c s). simpl. eauto.
    + exists rest. split; [|exact Hrest]. rewrite IH at 1. reflexivity.
Qed.

Lemma before_free (c : ascii) (s : string) (i : nat) :
  String.get i (before c s) <> Some c.
Proof.
  revert i. induction s as [|a s IH]; intros i; simpl; [now destruct i|].
  destruct (Ascii.eqb_spec a c) as [->|Hne]; [now destruct i|].
  destruct i as [|i]; simpl; [congruence|apply IH].
Qed.

Lemma before_whole (c : ascii) (s : string) :
  (forall i, String.get i s <> Some c) -> before c s = s.
Proof.
  induction s as [|a s IH]; intros H; simpl; [reflexivity|].
  destruct (Ascii.eqb_spec a c) as [->|Hne].
  - now specialize (H 0%nat).
  - rewrite IH; [reflexivity|]. intros i. apply (H (S i)).
Qed.

Lemma before_empty (c : ascii) (s : string) :
  before c s = EmptyString <-> s = EmptyString \/ exists t, s = String c t.
Proof.
  destruct s as [|a s]; simpl.
  - split; auto.
  - destruct (Ascii.eqb_spec a c) as [->|Hne].
    + split; eauto.
    + split; [discriminate|]. intros [H|[t H]]; [discriminate|congruence].
Qed.

Lemma slice_from_cons (a : ascii) (s : string) (m : nat) :
  slice_from (S m) (String a s) = slice_from m s.
Proof. reflexivity. Qed.

Lemma Index_Some_after (c : ascii) (s : string) (m : nat) :
  Index s (one c) = Some m -> slice_from (m + String.length (one c)) s = after c s.
Proof.
  revert m. induction s as [|a s IH]; intros m; [discriminate|].
  rewrite Index_cons. simpl String.length. simpl after. rewrite Nat.add_1_r.
  destruct (Ascii.eqb a c).
  - intros [= <-]. rewrite slice_from_cons. unfold slice_from.
    rewrite Nat.sub_0_r. apply substring_all.
  - destruct (Index s (one c)) as [m'|] eqn:E; [|discriminate].
    intros [= <-]. rewrite slice_from_cons.
    specialize (IH m' eq_refl). simpl String.length in IH.
    now rewrite Nat.add_1_r in IH.
Qed.

Lemma after_length (c : ascii) (s : string) :
  (String.length (after c s) <= String.length s)%nat.
Proof.
  induction s as [|a s IH]; simpl; [lia|].
  destruct (Ascii.eqb a c); simpl; lia.
Qed.

Lemma Index_Some_shorter (c : ascii) (s : string) (m : nat) :
  Index s (one c) = Some m -> (String.length (after c s) < String.length s)%nat.
Proof.
  destruct s as [|a s]; [discriminate|]. intros _. simpl.
  destruct (Ascii.eqb a c); [lia|]. pose proof (after_length c s). lia.
Qed.

Lemma Index_None_occurrences (c : ascii) (s : string) :
  Index s (one c) = None -> occurrences c s = 0%nat.
Proof.
  induction s as [|a s IH]; [reflexivity|].
  rewrite Index_cons. simpl.
  destruct (Ascii.eqb a c); [discriminate|].
  destruct (Index s (one c)); [discriminate|]. intros _. now apply IH.
Qed.

Lemma Index_Some_occurrences (c : ascii) (s : string) (m : nat) :
  Index s (one c) = Some m -> occurrences c s = S (occurrences c (after c s)).
Proof.
  revert m. induction s as [|a s IH]; intros m; [discriminate|].
  rewrite Index_cons. simpl.
  destruct (Ascii.eqb a c); [reflexivity|].
  destruct (Index s (one c)) as [m'|]; [|discriminate].
  intros _. now apply (IH m').
Qed.

Lemma Index_None_segments (c : ascii) (s : string) :
  Index s (one c) = None -> segments c s = [s].
Proof.
  induction s as [|a s IH]; [reflexivity|].
  rewrite Index_cons. simpl.
  destruct (Ascii.eqb a c); [discriminate|].
  destruct (Index s (one c)); [discriminate|]. intros _. now rewrite IH.
Qed.

Lemma Index_Some_segments (c : ascii) (s : string) (m : nat) :
  Index s (one c) = Some m -> segments c s = before c s :: segments c (after c s).
Proof.
  revert m. induction s as [|a s IH]; intros m; [discriminate|].
  rewrite Index_cons. simpl.
  destruct (Ascii.eqb a c); [reflexivity|].
  destruct (Index s (one c)) as [m'|]; [|discriminate].
  intros _. now rewrite (IH m').
Qed.

(** The fuel of [Count] is enough: it counts every separator. *)
Lemma Count_loop_occurrences (c : ascii) (fuel : nat) (s : string) :
  (String.length s < fuel)%nat -> Count_loop fuel s (one c) = occurrences c s.
Proof.
  revert s. induction fuel as [|fuel IH]; intros s Hlen; [lia|].
  cbn [Count_loop]. destruct (Index s (one c)) as [m|] eqn:E.
  - rewrite (Index_Some_after _ _ _ E), (Index_Some_occurrences _ _ _ E).
    f_equal. apply IH. pose proof (Index_Some_shorter _ _ _ E). lia.
  - symmetry. now apply Index_None_occurrences.
Qed.

Lemma genSplit_loop_segments (c : ascii) (n : nat) (s : string) :
  (occurrences c s <= n)%nat -> genSplit_loop n s (one c) = segments c s.
Proof.
  revert s. induction n as [|n IH]; intros s Hocc; cbn [genSplit_loop].
  - destruct (Index s (one c)) as [m|] eqn:E.
    + rewrite (Index_Some_occurrences _ _ _ E) in Hocc. lia.
    + symmetry. now apply Index_None_segments.
  - destruct (Index s (one c)) as [m|] eqn:E.
    + rewrite (Index_Some_after _ _ _ E), (Index_Some_before _ _ _ E),
        (Index_Some_segments _ _ _ E).
      f_equal. apply IH. rewrite (Index_Some_occurrences _ _ _ E) in Hocc. lia.
    + symmetry. now apply Index_None_segments.
Qed.

(** [Split] on a one-byte separator cuts the string at every separator. *)
Lemma Split_segments (c : ascii) (s : string) :
  Split s (one c) = segments c s.
Proof.
  unfold Split, Count. apply genSplit_loop_segments.
  rewrite Count_loop_occurrences; lia.
Qed.

Lemma getGroup_before (r : resource.Resource) :
  resource.getGroup r = before "/" (resource.ApiVersion r).
Proof.
  unfold resource.getGroup.
  destruct (Split_head "/" (resource.ApiVersion r)) as [rest E].
  change (one "/") with "/" in E. rewrite E. reflexivity.
Qed.

End SplitFacts.

Example Split_several :
  GoStrings.Split "a/b//c/" "/" = ["a"; "b"; EmptyString; "c"; EmptyString].
Proof. reflexivity. Qed.

Example Split_empty : GoStrings.Split EmptyString "/" = [EmptyString].
Proof. reflexivity. Qed.

Example Split_no_separator : GoStrings.Split "v1" "/" = ["v1"].
Proof. reflexivity. Qed.

Example getGroup_playlist :
  resource.getGroup
    {| resource.ApiVersion := "playlist.grafana.app/v0alpha1";
       resource.Kind := "Playlist";
       resource.Metadata := {| resource.md_Namespace := "default";
                               resource.md_Name := "p1" |} |}
  = "playlist.grafana.app".
Proof. reflexivity. Qed.

(** C10: [getGroup] is total and never takes its fallback branch: the
    split always has at least one segment, so the result is the part of
    [apiVersion] before its first ['/'] (what follows is empty or starts
    with that ['/'], and the part itself has no ['/']) -- the whole string
    when there is no ['/'], and empty exactly when [apiVersion] is empty or
    starts with ['/']. *)
Theorem getGroup_total_prefix (r : resource.Resource) :
  (0 < length (GoStrings.Split (resource.ApiVersion r) "/"))%nat /\
  (exists rest,
      resource.ApiVersion r = (resource.getGroup r ++ rest)%string /\
      (rest = EmptyString \/ exists t, rest = String "/" t)) /\
  (forall i, String.get i (resource.getGroup r) <> Some "/"%char) /\
  ((forall i, String.get i (resource.ApiVersion r) <> Some "/"%char) ->
   resource.getGroup r = resource.ApiVersion r) /\
  (resource.getGroup r = EmptyString <->
   resource.ApiVersion r = EmptyString \/ exists t, resource.ApiVersion r = String "/" t).
Proof.
  rewrite getGroup_before. repeat split.
  - apply Split_nonempty.
  - apply before_split.
  - apply before_free.
  - apply before_whole.
  - apply before_empty.
  - apply before_empty.
Qed.

(** ** The index server *)

Section IndexServerFacts.
Import resource.
Context `{D : Deps}.
Local Open Scope list_scope.

(** [Index] on a request without a key. *)
Lemma Index_absent (req : IndexRequest) (st : state) :
  req_Key req = None ->
  Index req st =
    (let fresh := NewIndex (s (is_ st)) Build_Opts in
     ((None, snd (Index_Init fresh)),
      logged [Call_NewIndex (s (is_ st)) Build_Opts; Call_Index_Init]
        (holding (Some (fst (Index_Init fresh))) st))).
Proof.
  intros H. unfold Index. rewrite H.
  unfold bind, get_is, record, modify_is, ret, logged, holding, set_index.
  cbn. destruct (Index_Init _) as [i [e|]]; cbn;
    rewrite <- app_assoc; reflexivity.
Qed.

(** [Index] on a request with a key. *)
Lemma Index_present (req : IndexRequest) (st : state) (k : ResourceKey) :
  req_Key req = Some k ->
  Index req st =
    (let d := {| Key := Some k; Value_ := req_Value req |} in
     ((None, snd (Index_Index (index (is_ st)) d)),
      logged [Call_Index_Index d]
        (holding (fst (Index_Index (index (is_ st)) d)) st))).
Proof.
  intros H. unfold Index. rewrite H.
  unfold bind, get_is, record, modify_is, ret, logged, holding, set_index.
  cbn. destruct (Index_Index _ _) as [i [e|]]; cbn; reflexivity.
Qed.

(** C5: what [Index] does with a request.  Without a key it builds a
    fresh index for the server it knows, puts it in place and initializes
    it; with a key it feeds the one document [{key, value}] of the
    request to the upsert of the index it holds.  These are the only
    calls it makes, the response is always [nil], and the error it
    returns is the error of that step, so it is [nil] exactly when the
    step succeeds. *)
Theorem Index_reinitializes_or_feeds (req : IndexRequest) (st : state) :
  let '(res, st') := Index req st in
  fst res = None /\
  s (is_ st') = s (is_ st) /\
  ws (is_ st') = ws (is_ st) /\
  match req_Key req with
  | None =>
      let fresh := NewIndex (s (is_ st)) Build_Opts in
      calls st' = calls st ++ [Call_NewIndex (s (is_ st)) Build_Opts; Call_Index_Init] /\
      index (is_ st') = Some (fst (Index_Init fresh)) /\
      snd res = snd (Index_Init fresh) /\
      (snd res = None <-> snd (Index_Init fresh) = None)
  | Some k =>
      let d := {| Key := Some k; Value_ := req_Value req |} in
      calls st' = calls st ++ [Call_Index_Index d] /\
      index (is_ st') = fst (Index_Index (index (is_ st)) d) /\
      snd res = snd (Index_Index (index (is_ st)) d) /\
      (snd res = None <-> snd (Index_Index (index (is_ st)) d) = None)
  end.
Proof.
  destruct (req_Key req) as [k|] eqn:E.
  - rewrite (Index_present req st k E). cbn. tauto.
  - rewrite (Index_absent req st E). cbn. tauto.
Qed.

(** C9: re-initialization is not atomic.  When the request has no key and
    initializing the fresh index fails with [e], [Index] returns [e] and
    the server holds the fresh index as the failed initialization left
    it: the fresh index was constructed and put in place before it was
    initialized, and whatever index the server held before is gone. *)
Theorem Index_reinit_failure_keeps_fresh_index
    (req : IndexRequest) (st : state) (i : IndexT) (e : error) :
  req_Key req = None ->
  Index_Init (NewIndex (s (is_ st)) Build_Opts) = (i, Some e) ->
  snd (fst (Index req st)) = Some e /\
  index (is_ (snd (Index req st))) = Some i /\
  calls (snd (Index req st)) =
    calls st ++ [Call_NewIndex (s (is_ st)) Build_Opts; Call_Index_Init] /\
  (forall old : option IndexT,
      index (is_ (snd (Index req (holding old st)))) = Some i /\
      snd (fst (Index req (holding old st))) = Some e).
Proof.
  intros Hk Hinit. rewrite (Index_absent req st Hk). cbn. rewrite Hinit. cbn.
  repeat split; try reflexivity;
    rewrite (Index_absent req (holding old st) Hk); cbn; rewrite Hinit; reflexivity.
Qed.

(** C1, as the code has it: [Search] answers every request, in every
    state of the index server, with an empty response and a [nil] error,
    and changes nothing. *)
Theorem Search_always_empty_success (req : SearchRequest) (st : state) :
  Search req st = ((Some {| Items := [] |}, None), st).
Proof. reflexivity. Qed.

Lemma Send_decode_error (we : WatchEvent) (st : state) (e : error) :
  getResource (we_Value (we_Resource we)) = Err e ->
  Send we st = (Some e, logged [Call_getResource (we_Value (we_Resource we))] st).
Proof.
  intros H. unfold Send, bind, record, ret. cbn. rewrite H. reflexivity.
Qed.

Lemma Send_decoded (we : WatchEvent) (st : state) (r : Resource) :
  getResource (we_Value (we_Resource we)) = Ok r ->
  Send we st =
    (let d := document_of we r in
     let up := Index_Index (index (is_ st)) d in
     (snd up,
      logged [Call_getResource (we_Value (we_Resource we)); Call_Index_Index d]
        (holding (fst up) st))).
Proof.
  intros H. unfold Send, bind, record. rewrite H.
  erewrite Index_present by reflexivity.
  unfold logged, holding, document_of, key_of, ret. cbn.
  rewrite <- app_assoc.
  destruct (Index_Index _ _) as [i [e|]]; reflexivity.
Qed.

(** C6: the key that [Send] builds for a decoded resource has as group
    the first segment of the resource's apiVersion split on ['/'], which
    is the whole apiVersion when that has no ['/']; this is the key of
    the one document [Send] hands to the index. *)
Theorem Send_group_is_first_segment (we : WatchEvent) (st : state) (r : Resource) :
  getResource (we_Value (we_Resource we)) = Ok r ->
  exists (seg : string) (rest : list string) (k : ResourceKey),
    GoStrings.Split (ApiVersion r) "/" = seg :: rest /\
    Group k = seg /\
    ((forall n, String.get n (ApiVersion r) <> Some "/"%char) ->
     Group k = ApiVersion r) /\
    Resource_ k = Kind r /\
    Namespace k = md_Namespace (Metadata r) /\
    Name k = md_Name (Metadata r) /\
    calls (snd (Send we st)) =
      calls st ++
        [Call_getResource (we_Value (we_Resource we));
         Call_Index_Index
           {| Key := Some k;
              Value_ := Some {| ResourceVersion := Version (we_Resource we);
                                Value := we_Value (we_Resource we) |} |}].
Proof.
  intros H.
  destruct (Split_head "/" (ApiVersion r)) as [rest Hsplit].
  change (one "/") with "/" in Hsplit.
  exists (before "/" (ApiVersion r)), rest, (key_of r).
  rewrite (Send_decoded we st r H). cbn.
  repeat split; try assumption; try reflexivity.
  - apply getGroup_before.
  - intros Hfree. rewrite getGroup_before. now apply before_whole.
Qed.

(** C2, as the code has it: when the ingestion of a watch event fails
    with [e] -- decoding fails, or the upsert of the decoded document
    returns [e] -- [Send] returns [e] to the stream that called it,
    after that single attempt and no other call; and the watch loop,
    which ends a subscription whose [Send] fails, returns [e] there
    without delivering any later event. *)
Theorem Send_returns_ingestion_error (we : WatchEvent) (st : state) (e : error) :
  ingestion_fails we st e ->
  fst (Send we st) = Some e /\
  (exists attempt,
      calls (snd (Send we st)) =
        calls st ++ Call_getResource (we_Value (we_Resource we)) :: attempt /\
      (attempt = [] \/ exists d, attempt = [Call_Index_Index d])) /\
  (forall (rest : list WatchEvent) (final : option error),
      SpecWatch.Watch (we :: rest) final Send st = (Some e, snd (Send we st))).
Proof.
  intros Hfail.
  assert (Herr : fst (Send we st) = Some e).
  { destruct Hfail as [Hdec|(r & Hdec & Hup)].
    - now rewrite (Send_decode_error we st e Hdec).
    - rewrite (Send_decoded we st r Hdec). exact Hup. }
  split; [exact Herr|]. split.
  - destruct Hfail as [Hdec|(r & Hdec & Hup)].
    + rewrite (Send_decode_error we st e Hdec). exists []. eauto.
    + rewrite (Send_decoded we st r Hdec). cbn. eauto.
  - intros rest final. cbn [SpecWatch.Watch].
    destruct (Send we st) as [err st'] eqn:E. cbn in Herr. subst err.
    reflexivity.
Qed.

(** [Init], when it returns before the watch has ended, returns [nil]
    and leaves the index server wired to [rs]. *)
Lemma Init_return_first (ctx : context_Context) (rs : server) (st : state) :
  Init ctx rs ReturnBeforeWatchEnds st =
    (None,
     {| is_ := {| s := Some rs; index := index (is_ st);
                  ws := Some {| context := Some ctx |} |};
        calls := calls st |}).
Proof. reflexivity. Qed.

(** Had the watch ended before [return err], [Init] would return what the
    watch returned. *)
Lemma Init_watch_first (ctx : context_Context) (rs : server) (st : state) :
  fst (Init ctx rs WatchEndsBeforeReturn st) =
    fst (Init_goroutine rs (snd (Init ctx rs ReturnBeforeWatchEnds st))).
Proof.
  unfold Init, bind, modify_is, ret. cbn.
  now destruct (server_Watch state rs watch_request Send _).
Qed.

End IndexServerFacts.

(** ** The constructor of package [sql] *)

Section ServerFacts.
Import resource sql.
Context `{E : Env}.
Local Open Scope list_scope.

Lemma NewResourceServer_success (db : DB) (cfg : Cfg) (features : FeatureToggles)
    (tracer : Tracer) (srv : option server) :
  IsEnabledGlobally features FlagUnifiedStorageSearch = true ->
  NewResourceServer db cfg features tracer = (srv, None) ->
  exists eDB store srv0 srv1 resp,
    ProvideResourceDB db cfg features tracer = Ok eDB /\
    NewBackend {| DBProvider := eDB; bo_Tracer := tracer |} = Ok store /\
    resource_NewResourceServer
      (with_index (base_opts tracer store) NewResourceIndexServer) = Ok srv0 /\
    server_Index srv0 init_request = (srv1, (resp, None)) /\
    srv = Some srv1.
Proof.
  intros Hflag. unfold NewResourceServer. rewrite Hflag.
  destruct (ProvideResourceDB db cfg features tracer) as [eDB|e]; [|discriminate].
  destruct (NewBackend _) as [store|e] eqn:Hb; [|discriminate].
  destruct (resource_NewResourceServer _) as [srv0|e] eqn:Hnew; [|discriminate].
  fold init_request.
  destruct (server_Index srv0 init_request) as [srv1 [resp err]] eqn:Hidx.
  intros [= <- ->]. exists eDB, store, srv0, srv1, resp. auto.
Qed.

Lemma NewResourceServer_init_failure (db : DB) (cfg : Cfg) (features : FeatureToggles)
    (tracer : Tracer) eDB store srv0 srv1 resp (e : error) :
  IsEnabledGlobally features FlagUnifiedStorageSearch = true ->
  ProvideResourceDB db cfg features tracer = Ok eDB ->
  NewBackend {| DBProvider := eDB; bo_Tracer := tracer |} = Ok store ->
  resource_NewResourceServer
    (with_index (base_opts tracer store) NewResourceIndexServer) = Ok srv0 ->
  server_Index srv0 init_request = (srv1, (resp, Some e)) ->
  NewResourceServer db cfg features tracer = (Some srv1, Some e).
Proof.
  intros Hflag Hdb Hb Hnew Hidx. unfold NewResourceServer.
  rewrite Hdb, Hb, Hflag, Hnew. fold init_request. now rewrite Hidx.
Qed.

Lemma Index_after_Init (ctx : context_Context) (rs : server) (st : state) :
  let st1 := snd (Init ctx rs ReturnBeforeWatchEnds st) in
  let fresh := NewIndex (Some rs) Build_Opts in
  Index init_request st1 =
    ((None, snd (Index_Init fresh)),
     logged [Call_NewIndex (Some rs) Build_Opts; Call_Index_Init]
       (holding (Some (fst (Index_Init fresh))) st1)).
Proof.
  cbv zeta. rewrite Init_return_first. cbn [snd].
  now rewrite Index_absent.
Qed.

(** C4: in indexed mode the constructor returns without an error only
    after the façade was constructed (with a new index server among its
    options) and the control call [Index] with no key, made on that
    façade, returned without an error; an error of that call is the
    constructor's error.  On an index server that [Init] has wired to
    the resource server, that control call hands the server reference to
    a fresh index and initializes it, and succeeds exactly when the
    initialization does. *)
Theorem NewResourceServer_indexed_mode_initializes
    (db : DB) (cfg : Cfg) (features : FeatureToggles) (tracer : Tracer) :
  IsEnabledGlobally features FlagUnifiedStorageSearch = true ->
  (forall srv, NewResourceServer db cfg features tracer = (srv, None) ->
     exists eDB store srv0 srv1 resp,
       ProvideResourceDB db cfg features tracer = Ok eDB /\
       NewBackend {| DBProvider := eDB; bo_Tracer := tracer |} = Ok store /\
       resource_NewResourceServer
         (with_index (base_opts tracer store) NewResourceIndexServer) = Ok srv0 /\
       server_Index srv0 init_request = (srv1, (resp, None)) /\
       srv = Some srv1) /\
  (forall eDB store srv0 srv1 resp e,
     ProvideResourceDB db cfg features tracer = Ok eDB ->
     NewBackend {| DBProvider := eDB; bo_Tracer := tracer |} = Ok store ->
     resource_NewResourceServer
       (with_index (base_opts tracer store) NewResourceIndexServer) = Ok srv0 ->
     server_Index srv0 init_request = (srv1, (resp, Some e)) ->
     NewResourceServer db cfg features tracer = (Some srv1, Some e)) /\
  (forall (ctx : context_Context) (rs : server) (st : state),
     let st1 := snd (Init ctx rs ReturnBeforeWatchEnds st) in
     let fresh := NewIndex (Some rs) Build_Opts in
     let '(res, st2) := Index init_request st1 in
     calls st2 = calls st ++ [Call_NewIndex (Some rs) Build_Opts; Call_Index_Init] /\
     index (is_ st2) = Some (fst (Index_Init fresh)) /\
     (snd res = None <-> snd (Index_Init fresh) = None)).
Proof.
  intros Hflag. split; [|split].
  - intros srv. now apply NewResourceServer_success.
  - intros eDB store srv0 srv1 resp e Hdb Hb Hnew Hidx.
    exact (NewResourceServer_init_failure db cfg features tracer
             eDB store srv0 srv1 resp e Hflag Hdb Hb Hnew Hidx).
  - intros ctx rs st. cbv zeta. rewrite Index_after_Init.
    rewrite Init_return_first. cbn. tauto.
Qed.

End ServerFacts.

(** ** The index and the backend as specified *)

Section SpecFacts.
Import resource.

Lemma Index_stale (idx : gmap ResourceKey SpecIndex.IndexDocument)
    (k : ResourceKey) (v : ResourceWrapper) (d : SpecIndex.IndexDocument) :
  idx !! k = Some d ->
  (ResourceVersion v <= SpecIndex.doc_version d)%Z ->
  SpecIndex.Index idx k v = idx.
Proof.
  intros Hd Hle. unfold SpecIndex.Index. rewrite Hd.
  destruct (Z.leb_spec (ResourceVersion v) (SpecIndex.doc_version d)); [reflexivity|lia].
Qed.

Lemma Index_fresh (idx : gmap ResourceKey SpecIndex.IndexDocument)
    (k : ResourceKey) (v : ResourceWrapper) :
  (idx !! k = None \/
   exists d, idx !! k = Some d /\ (SpecIndex.doc_version d < ResourceVersion v)%Z) ->
  SpecIndex.Index idx k v = <[k := SpecIndex.document k v]> idx.
Proof.
  unfold SpecIndex.Index. intros [->|(d & -> & Hlt)]; [reflexivity|].
  destruct (Z.leb_spec (ResourceVersion v) (SpecIndex.doc_version d)); [lia|reflexivity].
Qed.

(** After an upsert of [v] the stored version is at least that of [v]. *)
Lemma Index_stored (idx : gmap ResourceKey SpecIndex.IndexDocument)
    (k : ResourceKey) (v : ResourceWrapper) :
  exists d, SpecIndex.Index idx k v !! k = Some d /\
            (ResourceVersion v <= SpecIndex.doc_version d)%Z.
Proof.
  unfold SpecIndex.Index. destruct (idx !! k) as [d|] eqn:Hd.
  - destruct (Z.leb_spec (ResourceVersion v) (SpecIndex.doc_version d)).
    + exists d. auto.
    + exists (SpecIndex.document k v). rewrite lookup_insert_eq. simpl. split; [reflexivity|lia].
  - exists (SpecIndex.document k v). rewrite lookup_insert_eq. simpl. split; [reflexivity|lia].
Qed.

(** C7: the monotonic-version discard law.  With [v0] older than [v1],
    upserting [v1] and then [v0] for a key leaves the index as the upsert
    of [v1] left it; the stored document is then the one of [v1]
    whenever that upsert took effect (the key was new to the index or
    stored at an older version).  In general an upsert whose version is
    not above the stored one changes nothing, and so upserting the same
    wrapper twice is the same as upserting it once. *)
Theorem Index_discards_older_versions
    (idx : gmap ResourceKey SpecIndex.IndexDocument)
    (k : ResourceKey) (v0 v1 : ResourceWrapper) :
  (ResourceVersion v0 < ResourceVersion v1)%Z ->
  SpecIndex.Index (SpecIndex.Index idx k v1) k v0 = SpecIndex.Index idx k v1 /\
  ((idx !! k = None \/
    exists d, idx !! k = Some d /\ (SpecIndex.doc_version d < ResourceVersion v1)%Z) ->
   SpecIndex.Index (SpecIndex.Index idx k v1) k v0 !! k = Some (SpecIndex.document k v1)) /\
  (forall (i : gmap ResourceKey SpecIndex.IndexDocument) v d,
      i !! k = Some d -> (ResourceVersion v <= SpecIndex.doc_version d)%Z ->
      SpecIndex.Index i k v = i) /\
  (forall v, SpecIndex.Index (SpecIndex.Index idx k v) k v = SpecIndex.Index idx k v).
Proof.
  intros Hlt.
  assert (Hnoop : SpecIndex.Index (SpecIndex.Index idx k v1) k v0 = SpecIndex.Index idx k v1).
  { destruct (Index_stored idx k v1) as (d & Hd & Hle).
    apply (Index_stale _ _ _ d Hd). lia. }
  split; [exact Hnoop|]. split; [|split].
  - intros Hfresh. rewrite Hnoop, (Index_fresh idx k v1 Hfresh).
    apply lookup_insert_eq.
  - intros i v d. apply Index_stale.
  - intros v. destruct (Index_stored idx k v) as (d & Hd & Hle).
    apply (Index_stale _ _ _ d Hd Hle).
Qed.

(** C8: a write whose [expectedVersion] is not the latest stored version
    of its key fails with [ConflictError] and leaves the whole store, so
    also the history and latest version of that key, as it was; this
    takes precedence over a failure of the storage underneath. *)
Theorem Write_stale_version_conflicts
    (io_ok : bool) (b : gmap ResourceKey (list ResourceWrapper))
    (k : ResourceKey) (value : list Byte.byte) (e : Z) :
  SpecBackend.latest b k <> Some e ->
  SpecBackend.Write io_ok b k value (Some e) = (SpecBackend.ConflictError, b) /\
  SpecBackend.history (snd (SpecBackend.Write io_ok b k value (Some e))) k
    = SpecBackend.history b k /\
  SpecBackend.latest (snd (SpecBackend.Write io_ok b k value (Some e))) k
    = SpecBackend.latest b k.
Proof.
  intros Hne.
  assert (H : SpecBackend.Write io_ok b k value (Some e) = (SpecBackend.ConflictError, b)).
  { unfold SpecBackend.Write. rewrite bool_decide_eq_false_2 by exact Hne. reflexivity. }
  rewrite H. auto.
Qed.

End SpecFacts.

(** ** The definitions at work *)

Section Runs.
Import resource.
Local Open Scope list_scope.

(** C3, on the code: [Init] returns [nil] whenever it returns before the
    watch has ended, whatever the watch returns later.  For a server
    whose watch ends with an error, [Init] has returned [nil] and the
    error only reaches the variable of the goroutine. *)
Theorem Init_drops_watch_error :
  (forall (D : Deps) (ctx : context_Context) (rs : server) (st : state),
      fst (Init ctx rs ReturnBeforeWatchEnds st) = None) /\
  fst (Init (D := Fixture.deps) tt Fixture.failing_watch ReturnBeforeWatchEnds
         Fixture.start) = None /\
  fst (Init_goroutine (D := Fixture.deps) Fixture.failing_watch
         (Fixture.wired Fixture.failing_watch)) = Some "watch stream failed".
Proof. repeat split. Qed.

(** C1 fails: right after construction and wiring, with no index built
    yet, [Search] returns an empty response and no error. *)
Lemma Search_before_ready_counterexample :
  index (is_ (Fixture.wired Fixture.quiet)) = None /\
  fst (Search (D := Fixture.deps) {| Query := "playlist" |} (Fixture.wired Fixture.quiet))
    = (Some {| Items := [] |}, None) /\
  ~ (exists e : error,
        snd (fst (Search (D := Fixture.deps) {| Query := "playlist" |}
                    (Fixture.wired Fixture.quiet))) = Some e).
Proof.
  repeat split. intros [e He]. discriminate He.
Qed.

(** C2 fails: on a stream that delivers an event that does not decode and
    then a good one, the watch ends with the decoding error after the
    first event; the second event is never handed to the bridge, although
    the bridge would have ingested it. *)
Lemma watch_aborts_on_ingestion_error_counterexample :
  let st := Fixture.initialized Fixture.bad_then_good in
  let run := Init_goroutine (D := Fixture.deps) Fixture.bad_then_good st in
  ingestion_fails (D := Fixture.deps) Fixture.bad st "unexpected end of JSON input" /\
  fst run = Some "unexpected end of JSON input" /\
  calls (snd run) =
    calls st ++ [Call_Watch (D := Fixture.deps) Fixture.bad_then_good watch_request;
                 Call_getResource (we_Value (we_Resource Fixture.bad))] /\
  ~ In (Call_getResource (we_Value (we_Resource Fixture.good))) (calls (snd run)) /\
  fst (Send (D := Fixture.deps) Fixture.good st) = None.
Proof.
  cbv zeta. split; [left; reflexivity|].
  split; [reflexivity|]. split; [reflexivity|]. split; [|reflexivity].
  cbn. intros H. repeat (destruct H as [H|H]; [discriminate H|]). exact H.
Qed.

(** The hypothesis of [Send_returns_ingestion_error] at the event that does
    not decode. *)
Lemma Send_returns_ingestion_error_witness :
  ingestion_fails (D := Fixture.deps) Fixture.bad
    (Fixture.initialized Fixture.bad_then_good)
    "unexpected end of JSON input" /\
  fst (Send (D := Fixture.deps) Fixture.bad (Fixture.initialized Fixture.bad_then_good))
    = Some "unexpected end of JSON input".
Proof.
  assert (H : ingestion_fails (D := Fixture.deps) Fixture.bad (Fixture.initialized Fixture.bad_then_good)
                "unexpected end of JSON input") by (left; reflexivity).
  split; [exact H|].
  exact (proj1 (Send_returns_ingestion_error (D := Fixture.deps) Fixture.bad _ _ H)).
Defined.

(** [Send_group_is_first_segment] at a playlist event. *)
Lemma Send_group_is_first_segment_witness :
  exists (seg : string) (rest : list string) (k : ResourceKey),
    GoStrings.Split "playlist.grafana.app/v0alpha1" "/" = seg :: rest /\
    Group k = seg /\
    In (Call_Index_Index
          {| Key := Some k;
             Value_ := Some {| ResourceVersion := 2;
                               Value := Fixture.value_of "playlist.grafana.app/v0alpha1" |} |})
       (calls (snd (Send (D := Fixture.deps) Fixture.good
                      (Fixture.initialized Fixture.quiet)))).
Proof.
  destruct (Send_group_is_first_segment (D := Fixture.deps) Fixture.good
              (Fixture.initialized Fixture.quiet)
              {| ApiVersion := "playlist.grafana.app/v0alpha1";
                 Kind := "Playlist";
                 Metadata := {| md_Namespace := "default";
                                md_Name := "playlist.grafana.app/v0alpha1" |} |}
              eq_refl)
    as (seg & rest & k & Hsplit & Hgroup & _ & _ & _ & _ & Hcalls).
  exists seg, rest, k. split; [exact Hsplit|]. split; [exact Hgroup|].
  rewrite Hcalls. apply in_or_app. right. right. left. reflexivity.
Defined.

(** [Index_reinit_failure_keeps_fresh_index] on an index server that holds
    a built index and whose server's scans now fail: the built index is
    replaced by an empty one. *)
Lemma Index_reinit_failure_keeps_fresh_index_witness :
  let fresh := {| Fixture.owner := Some Fixture.failing_scan; Fixture.docs := ∅ |} in
  snd (fst (Index (D := Fixture.deps) init_request Fixture.built_then_failing))
    = Some "scan failed" /\
  index (is_ (snd (Index (D := Fixture.deps) init_request Fixture.built_then_failing)))
    = Some fresh.
Proof.
  cbv zeta.
  destruct (Index_reinit_failure_keeps_fresh_index (D := Fixture.deps) init_request
              Fixture.built_then_failing
              {| Fixture.owner := Some Fixture.failing_scan; Fixture.docs := ∅ |}
              "scan failed" eq_refl eq_refl)
    as (Herr & Hidx & _).
  split; [exact Herr|exact Hidx].
Defined.

(** [NewResourceServer_indexed_mode_initializes] with search enabled and
    everything succeeding. *)
Lemma NewResourceServer_indexed_mode_initializes_witness :
  sql.IsEnabledGlobally (Env := Fixture.env) true
    (sql.FlagUnifiedStorageSearch (Env := Fixture.env)) = true /\
  exists srv0 srv1 resp,
    sql.server_Index (Env := Fixture.env) srv0 init_request = (srv1, (resp, None)) /\
    sql.NewResourceServer (E := Fixture.env) Fixture.quiet tt true tt = (Some srv1, None).
Proof.
  split; [reflexivity|].
  destruct (NewResourceServer_indexed_mode_initializes (E := Fixture.env)
              Fixture.quiet tt true tt eq_refl) as [H _].
  destruct (H (Some Fixture.quiet) eq_refl)
    as (eDB & store & srv0 & srv1 & resp & _ & _ & _ & Hidx & Hsrv).
  exists srv0, srv1, resp. split; [exact Hidx|].
  injection Hsrv as <-. reflexivity.
Defined.

(** [Index_discards_older_versions] on an empty index. *)
Lemma Index_discards_older_versions_witness :
  let k := Fixture.key "playlist.grafana.app" "p1" in
  let v0 := {| ResourceVersion := 1; Value := Fixture.value_of "old" |} in
  let v1 := {| ResourceVersion := 2; Value := Fixture.value_of "new" |} in
  (ResourceVersion v0 < ResourceVersion v1)%Z /\
  SpecIndex.Index (SpecIndex.Index ∅ k v1) k v0 !! k = Some (SpecIndex.document k v1).
Proof.
  cbv zeta. split; [simpl; lia|].
  refine (proj1 (proj2 (Index_discards_older_versions ∅ _ _ _ _)) _).
  - simpl; lia.
  - left. apply lookup_empty.
Defined.

(** [Write_stale_version_conflicts] on a key written once, with an
    expected version of 0. *)
Lemma Write_stale_version_conflicts_witness :
  let k := Fixture.key "playlist.grafana.app" "p1" in
  let b := snd (SpecBackend.Write true ∅ k (Fixture.value_of "v1") None) in
  SpecBackend.latest b k = Some 1%Z /\
  SpecBackend.Write true b k (Fixture.value_of "v2") (Some 0%Z)
    = (SpecBackend.ConflictError, b).
Proof.
  cbv zeta.
  assert (H : SpecBackend.latest
                (snd (SpecBackend.Write true ∅ (Fixture.key "playlist.grafana.app" "p1")
                        (Fixture.value_of "v1") None))
                (Fixture.key "playlist.grafana.app" "p1") = Some 1%Z).
  { unfold SpecBackend.Write, SpecBackend.latest, SpecBackend.history. simpl.
    rewrite lookup_empty, lookup_insert_eq. reflexivity. }
  split; [exact H|].
  refine (proj1 (Write_stale_version_conflicts true _ _ _ 0%Z _)).
  rewrite H. discriminate.
Defined.

End Runs.


(** * Further properties of the code *)

(** ** [Send], and runs of calls on the index server *)

Section MoreIndexServerFacts.
Import resource.
Context `{D : Deps}.
Local Open Scope list_scope.

Lemma Index_keeps_wiring (req : IndexRequest) (st : state) :
  s (is_ (snd (Index req st))) = s (is_ st) /\
  ws (is_ (snd (Index req st))) = ws (is_ st).
Proof.
  destruct (req_Key req) as [k|] eqn:E.
  - rewrite (Index_present req st k E). cbn. auto.
  - rewrite (Index_absent req st E). cbn. auto.
Qed.

Lemma Send_cases (we : WatchEvent) (st : state) :
  (exists e, getResource (we_Value (we_Resource we)) = Err e /\
             Send we st =
               (Some e, logged [Call_getResource (we_Value (we_Resource we))] st)) \/
  (exists r, getResource (we_Value (we_Resource we)) = Ok r /\
             Send we st =
               (snd (Index_Index (index (is_ st)) (document_of we r)),
                logged [Call_getResource (we_Value (we_Resource we));
                        Call_Index_Index (document_of we r)]
                  (holding (fst (Index_Index (index (is_ st)) (document_of we r))) st))).
Proof.
  destruct (getResource (we_Value (we_Resource we))) as [r|e] eqn:E.
  - right. exists r. split; [reflexivity|]. now apply Send_decoded.
  - left. exists e. split; [reflexivity|]. now apply Send_decode_error.
Qed.

(** X1: what [Send] touches.  Whatever the event, [Send] leaves the index
    server's resource server and stream as they are, decodes the value
    once and then calls the upsert at most once; it never constructs or
    initializes an index. *)
Theorem Send_footprint (we : WatchEvent) (st : state) :
  s (is_ (snd (Send we st))) = s (is_ st) /\
  ws (is_ (snd (Send we st))) = ws (is_ st) /\
  exists attempt,
    calls (snd (Send we st)) =
      calls st ++ Call_getResource (we_Value (we_Resource we)) :: attempt /\
    (attempt = [] \/ exists d, attempt = [Call_Index_Index d]) /\
    (forall srv o, ~ In (Call_NewIndex srv o) attempt) /\
    ~ In Call_Index_Init attempt.
Proof.
  destruct (Send_cases we st) as [(e & _ & ->)|(r & _ & ->)]; cbn.
  - split; [reflexivity|]. split; [reflexivity|]. exists []. cbn. tauto.
  - split; [reflexivity|]. split; [reflexivity|].
    exists [Call_Index_Index (document_of we r)]. cbn.
    repeat split; eauto.
    + intros srv o [H|[]]. discriminate H.
    + intros [H|[]]. discriminate H.
Qed.

(** X2: [Send] returns [nil] exactly when the value decodes and the upsert
    of its document returns [nil]; the index server then holds the index
    the upsert left. *)
Theorem Send_nil_iff (we : WatchEvent) (st : state) :
  (fst (Send we st) = None <->
   exists r, getResource (we_Value (we_Resource we)) = Ok r /\
             snd (Index_Index (index (is_ st)) (document_of we r)) = None) /\
  (forall r, getResource (we_Value (we_Resource we)) = Ok r ->
             index (is_ (snd (Send we st)))
               = fst (Index_Index (index (is_ st)) (document_of we r))).
Proof.
  destruct (Send_cases we st) as [(e & Hdec & ->)|(r & Hdec & ->)]; cbn.
  - split.
    + split; [discriminate|]. intros (r & Hr & _). congruence.
    + intros r Hr. congruence.
  - split.
    + split.
      * intros H. exists r. auto.
      * intros (r' & Hr' & H). congruence.
    + intros r' Hr'. congruence.
Qed.

(** X3: [Send] does not look at the type of the event: two events that
    carry the same resource are handled alike whatever their types, so a
    [DELETED] event is decoded and upserted like an [ADDED] one. *)
Theorem Send_ignores_event_type (we1 we2 : WatchEvent) (st : state) :
  we_Resource we1 = we_Resource we2 ->
  Send we1 st = Send we2 st.
Proof.
  destruct we1 as [t1 r1], we2 as [t2 r2]. cbn. intros ->. reflexivity.
Qed.

(** X4: an event whose value does not decode leaves the index server as it
    was: no upsert is attempted and the held index is untouched. *)
Theorem Send_undecodable_changes_nothing (we : WatchEvent) (st : state) (e : error) :
  getResource (we_Value (we_Resource we)) = Err e ->
  fst (Send we st) = Some e /\
  is_ (snd (Send we st)) = is_ st /\
  calls (snd (Send we st)) = calls st ++ [Call_getResource (we_Value (we_Resource we))].
Proof.
  intros H. rewrite (Send_decode_error we st e H). cbn. auto.
Qed.

(** X5: delivering an event through [Send] does to the index server what
    the control call [Index] does for the document built from the event:
    the same error comes back and the same index is held afterwards. *)
Theorem Send_is_Index_of_document (we : WatchEvent) (st : state) (r : Resource) :
  getResource (we_Value (we_Resource we)) = Ok r ->
  let req := {| req_Key := Some (key_of r);
                req_Value := Some {| ResourceVersion := Version (we_Resource we);
                                     Value := we_Value (we_Resource we) |} |} in
  fst (Send we st) = snd (fst (Index req st)) /\
  is_ (snd (Send we st)) = is_ (snd (Index req st)).
Proof.
  intros H. cbv zeta. rewrite (Send_decoded we st r H).
  erewrite Index_present by reflexivity. cbn. auto.
Qed.

Lemma serve_keeps_wiring (q : request) (st : state) :
  s (is_ (serve q st)) = s (is_ st) /\ ws (is_ (serve q st)) = ws (is_ st).
Proof.
  destruct q as [req|req|req|req|we]; cbn [serve]; try (split; reflexivity).
  - apply Index_keeps_wiring.
  - destruct (Send_cases we st) as [(e & _ & ->)|(r & _ & ->)]; cbn; auto.
Qed.

Lemma serve_all_keeps_wiring (qs : list request) (st : state) :
  s (is_ (serve_all qs st)) = s (is_ st) /\ ws (is_ (serve_all qs st)) = ws (is_ st).
Proof.
  revert st. induction qs as [|q qs IH]; intros st; [split; reflexivity|].
  cbn [serve_all fold_left]. fold (serve_all qs (serve q st)).
  destruct (IH (serve q st)) as [-> ->]. apply serve_keeps_wiring.
Qed.

(** X6: the resource server and the stream of an index server are set by
    [Init] alone: no sequence of [Search], [History], [Origin], [Index]
    and [Send] calls changes either of them. *)
Theorem wiring_survives_every_call (qs : list request) (st : state) :
  s (is_ (serve_all qs st)) = s (is_ st) /\
  ws (is_ (serve_all qs st)) = ws (is_ st) /\
  (forall ctx rs,
      let st' := serve_all qs (snd (Init ctx rs ReturnBeforeWatchEnds st)) in
      s (is_ st') = Some rs /\ ws (is_ st') = Some {| context := Some ctx |}).
Proof.
  destruct (serve_all_keeps_wiring qs st) as [Hs Hws].
  split; [exact Hs|]. split; [exact Hws|].
  intros ctx rs. cbv zeta.
  destruct (serve_all_keeps_wiring qs (snd (Init ctx rs ReturnBeforeWatchEnds st)))
    as [-> ->].
  rewrite Init_return_first. cbn. auto.
Qed.

(** X7: re-initialization forgets everything.  After any sequence of
    calls -- documents fed, events delivered, earlier re-initializations --
    [Index] without a key leaves the same index and returns the same error
    as it would have without those calls. *)
Theorem reinit_forgets_earlier_calls (qs : list request) (req : IndexRequest) (st : state) :
  req_Key req = None ->
  index (is_ (snd (Index req (serve_all qs st)))) = index (is_ (snd (Index req st))) /\
  fst (Index req (serve_all qs st)) = fst (Index req st).
Proof.
  intros Hk. rewrite !(Index_absent req _ Hk). cbn.
  destruct (serve_all_keeps_wiring qs st) as [-> _]. auto.
Qed.

(** X9: the stream's [Context] never returns [nil] and settles: a stream
    without a context takes the background context and keeps it, a stream
    with a context returns it unchanged, and the stream that [Init]
    registers answers with the context [Init] was given. *)
Theorem Context_defaults_and_sticks (background : context_Context) (f : indexWatchServer) :
  context (snd (Context_ background f)) = Some (fst (Context_ background f)) /\
  Context_ background (snd (Context_ background f))
    = (fst (Context_ background f), snd (Context_ background f)) /\
  (forall c, context f = Some c -> Context_ background f = (c, f)) /\
  (context f = None -> fst (Context_ background f) = background) /\
  (forall ctx rs st,
      exists f', ws (is_ (snd (Init ctx rs ReturnBeforeWatchEnds st))) = Some f' /\
                 Context_ background f' = (ctx, f')).
Proof.
  unfold Context_. destruct f as [[c|]]; cbn.
  - repeat split; try congruence. intros ctx rs st. eexists. split; reflexivity.
  - repeat split; try congruence. intros ctx rs st. eexists. split; reflexivity.
Qed.

End MoreIndexServerFacts.

Lemma append_cons (a : ascii) (s t : string) :
  (String a s ++ t)%string = String a (s ++ t)%string.
Proof. reflexivity. Qed.

Lemma before_append (c : ascii) (s rest : string) :
  (forall n, String.get n s <> Some c) ->
  before c (s ++ String c rest)%string = s.
Proof.
  induction s as [|a s IH]; intros Hfree.
  - change (before c (String c rest) = EmptyString).
    cbn [before]. now rewrite Ascii.eqb_refl.
  - rewrite append_cons. cbn [before].
    destruct (Ascii.eqb_spec a c) as [->|Hne].
    + now specialize (Hfree 0%nat).
    + f_equal. apply IH. intros n. apply (Hfree (S n)).
Qed.

(** X8: for an apiVersion of the form group, ['/'], version, [getGroup]
    gives back the group, whatever the version (further ['/'] included),
    provided the group itself has no ['/']. *)
Theorem getGroup_of_group_and_version (r : resource.Resource) (group version : string) :
  (forall n, String.get n group <> Some "/"%char) ->
  resource.ApiVersion r = (group ++ String "/" version)%string ->
  resource.getGroup r = group.
Proof.
  intros Hfree Hv. rewrite getGroup_before, Hv. now apply before_append.
Qed.

(** ** [NewResourceServer] in both modes *)

Section MoreServerFacts.
Import resource sql.
Context `{E : Env}.

(** The constructor, step by step. *)
Lemma NewResourceServer_steps (db : DB) (cfg : Cfg) (features : FeatureToggles)
    (tracer : Tracer) :
  NewResourceServer db cfg features tracer =
    match ProvideResourceDB db cfg features tracer with
    | Err e => (None, Some e)
    | Ok eDB =>
        match NewBackend {| DBProvider := eDB; bo_Tracer := tracer |} with
        | Err e => (None, Some e)
        | Ok store =>
            match resource_NewResourceServer (facade_options features tracer store) with
            | Err e => (None, Some e)
            | Ok srv =>
                if IsEnabledGlobally features FlagUnifiedStorageSearch
                then (Some (fst (server_Index srv init_request)),
                      snd (snd (server_Index srv init_request)))
                else (Some srv, None)
            end
        end
    end.
Proof.
  unfold NewResourceServer, facade_options.
  destruct (ProvideResourceDB db cfg features tracer) as [eDB|e]; [|reflexivity].
  destruct (NewBackend _) as [store|e]; [|reflexivity].
  destruct (IsEnabledGlobally features FlagUnifiedStorageSearch).
  - destruct (resource_NewResourceServer _) as [srv|e]; [|reflexivity].
    fold init_request. now destruct (server_Index srv init_request) as [srv' [resp err]].
  - now destruct (resource_NewResourceServer _) as [srv|e].
Qed.

(** X10: in either mode the constructor returns a [nil] error exactly when
    the database provider, the backend and the façade were all built and,
    in indexed mode, the control call that initializes the index returned
    no error. *)
Theorem NewResourceServer_nil_error_iff (db : DB) (cfg : Cfg) (features : FeatureToggles)
    (tracer : Tracer) :
  snd (NewResourceServer db cfg features tracer) = None <->
  exists eDB store srv,
    ProvideResourceDB db cfg features tracer = Ok eDB /\
    NewBackend {| DBProvider := eDB; bo_Tracer := tracer |} = Ok store /\
    resource_NewResourceServer (facade_options features tracer store) = Ok srv /\
    (IsEnabledGlobally features FlagUnifiedStorageSearch = true ->
     snd (snd (server_Index srv init_request)) = None).
Proof.
  rewrite NewResourceServer_steps.
  destruct (ProvideResourceDB db cfg features tracer) as [eDB|e].
  2:{ split; [discriminate|]. intros (? & ? & ? & H & _). discriminate H. }
  destruct (NewBackend _) as [store|e] eqn:Hb.
  2:{ split; [discriminate|]. intros (eDB' & ? & ? & [= <-] & H & _). congruence. }
  destruct (resource_NewResourceServer _) as [srv|e] eqn:Hs.
  2:{ split; [discriminate|].
      intros (eDB' & store' & ? & [= <-] & H1 & H2 & _).
      assert (store' = store) as -> by congruence. congruence. }
  destruct (IsEnabledGlobally features FlagUnifiedStorageSearch) eqn:Hflag; cbn.
  - split.
    + intros H. exists eDB, store, srv. auto.
    + intros (eDB' & store' & srv' & [= <-] & H1 & H2 & H3).
      assert (store' = store) as -> by congruence.
      assert (srv' = srv) as -> by congruence. now apply H3.
  - split; [|reflexivity]. intros _. exists eDB, store, srv.
    repeat split; try assumption. discriminate.
Qed.


(** X12: whenever the constructor returns a server, the façade was built
    from options that carry the given tracer, one and the same backend as
    backend, diagnostics and lifecycle, and an index server exactly in
    indexed mode -- a new one, with no resource server, index or stream
    set. *)
Theorem NewResourceServer_facade_options (db : DB) (cfg : Cfg)
    (features : FeatureToggles) (tracer : Tracer) (srv : server) :
  fst (NewResourceServer db cfg features tracer) = Some srv ->
  exists eDB store srv0 opts,
    ProvideResourceDB db cfg features tracer = Ok eDB /\
    NewBackend {| DBProvider := eDB; bo_Tracer := tracer |} = Ok store /\
    resource_NewResourceServer opts = Ok srv0 /\
    Tracer_ opts = tracer /\
    Backend opts = Some store /\
    Diagnostics opts = Some store /\
    Lifecycle opts = Some store /\
    Index_ opts =
      (if IsEnabledGlobally features FlagUnifiedStorageSearch
       then Some {| s := None; index := None; ws := None |}
       else None) /\
    (IsEnabledGlobally features FlagUnifiedStorageSearch = false -> srv = srv0).
Proof.
  rewrite NewResourceServer_steps.
  destruct (ProvideResourceDB db cfg features tracer) as [eDB|e0]; [|discriminate].
  destruct (NewBackend _) as [store|e0] eqn:Hb; [|discriminate].
  destruct (resource_NewResourceServer _) as [srv0|e0] eqn:Hs; [|discriminate].
  intros H. exists eDB, store, srv0, (facade_options features tracer store).
  unfold facade_options in *.
  destruct (IsEnabledGlobally features FlagUnifiedStorageSearch); cbn in *.
  - repeat split; try assumption; discriminate.
  - repeat split; try assumption. congruence.
Qed.


End MoreServerFacts.

(** ** The highlighted spans of the Mermaid export *)

Section HighlightFacts.
Import MermaidExportModal.
Local Open Scope list_scope.

Lemma includes_In (highlights : list string) (spanId : string) :
  includes highlights spanId = true <-> In spanId highlights.
Proof.
  unfold includes. rewrite existsb_exists. split.
  - intros (x & Hx & Heq). apply String.eqb_eq in Heq. now subst.
  - intros H. exists spanId. split; [exact H|apply String.eqb_refl].
Qed.

Lemma includes_false (highlights : list string) (spanId : string) :
  includes highlights spanId = false <-> ~ In spanId highlights.
Proof.
  rewrite <- includes_In. destruct (includes highlights spanId); split; congruence.
Qed.

Lemma In_toggle (highlights : list string) (spanId other : string) :
  In other (mermaidToggleSpan highlights spanId) <->
  (other = spanId /\ ~ In spanId highlights) \/
  (other <> spanId /\ In other highlights).
Proof.
  unfold mermaidToggleSpan.
  destruct (includes highlights spanId) eqn:E.
  - apply includes_In in E. rewrite filter_In, Bool.negb_true_iff, String.eqb_neq.
    split.
    + intros [H Hne]. auto.
    + intros [[-> H]|[Hne H]]; [contradiction|auto].
  - apply includes_false in E. rewrite in_app_iff. cbn. split.
    + intros [H|[<-|[]]]; [|auto].
      right. split; [|exact H]. intros ->. contradiction.
    + intros [[-> _]|[_ H]]; auto.
Qed.

(** X14: a click on a span flips whether that span is highlighted and
    leaves every other span as it was. *)
Theorem toggle_flips_only_that_span (highlights : list string) (spanId : string) :
  (In spanId (mermaidToggleSpan highlights spanId) <-> ~ In spanId highlights) /\
  (forall other, other <> spanId ->
     (In other (mermaidToggleSpan highlights spanId) <-> In other highlights)).
Proof.
  split.
  - rewrite In_toggle. split.
    + intros [[_ H]|[H _]]; [exact H|congruence].
    + intros H. left. auto.
  - intros other Hne. rewrite In_toggle. split.
    + intros [[H _]|[_ H]]; [contradiction|exact H].
    + intros H. right. auto.
Qed.

Lemma toggle_NoDup (highlights : list string) (spanId : string) :
  List.NoDup highlights -> List.NoDup (mermaidToggleSpan highlights spanId).
Proof.
  intros Hnd. unfold mermaidToggleSpan.
  destruct (includes highlights spanId) eqn:E.
  - now apply List.NoDup_filter.
  - apply includes_false in E. apply List.NoDup_app; [exact Hnd| |].
    + constructor; [intros []|constructor].
    + intros x Hx [<-|[]]. contradiction.
Qed.

Lemma clicks_NoDup (spanIds highlights : list string) :
  List.NoDup highlights -> List.NoDup (clicks spanIds highlights).
Proof.
  revert highlights. induction spanIds as [|a spanIds IH]; intros h Hnd; [exact Hnd|].
  cbn. apply IH. now apply toggle_NoDup.
Qed.

(** X15: no span is ever listed twice.  A click keeps a list of highlights
    free of duplicates, so the list the component holds after any sequence
    of clicks (each rendered before the next), starting from its initial
    empty list, has none. *)
Theorem highlights_never_repeat (spanIds : list string) :
  List.NoDup (clicks spanIds initial_highlights) /\
  (forall highlights spanId,
      List.NoDup highlights -> List.NoDup (mermaidToggleSpan highlights spanId)).
Proof.
  split.
  - apply clicks_NoDup. constructor.
  - intros highlights spanId. apply toggle_NoDup.
Qed.

Lemma includes_toggle (highlights : list string) (spanId other : string) :
  includes (mermaidToggleSpan highlights spanId) other =
    if String.eqb spanId other then negb (includes highlights other)
    else includes highlights other.
Proof.
  apply Bool.eq_iff_eq_true. rewrite includes_In, In_toggle.
  destruct (String.eqb_spec spanId other) as [->|Hne].
  - rewrite Bool.negb_true_iff, includes_false. split.
    + intros [[_ H]|[H _]]; [exact H|congruence].
    + intros H. left. auto.
  - rewrite includes_In. split.
    + intros [[-> _]|[_ H]]; [congruence|exact H].
    + intros H. right. split; [congruence|exact H].
Qed.

Lemma includes_clicks (spanIds highlights : list string) (spanId : string) :
  includes (clicks spanIds highlights) spanId =
    xorb (includes highlights spanId)
         (Nat.odd (count_occ string_dec spanIds spanId)).
Proof.
  revert highlights. induction spanIds as [|a spanIds IH]; intros h.
  - cbn. now rewrite Bool.xorb_false_r.
  - cbn [clicks fold_left]. fold (clicks spanIds (mermaidToggleSpan h a)).
    rewrite IH, includes_toggle. cbn [count_occ].
    destruct (string_dec a spanId) as [->|Hne].
    + rewrite String.eqb_refl, Nat.odd_succ, <- Nat.negb_odd.
      now destruct (includes h spanId), (Nat.odd _).
    + destruct (String.eqb_spec a spanId) as [->|_]; [congruence|reflexivity].
Qed.

(** X16: after any sequence of clicks on the initially empty list, each
    rendered before the next, a span is highlighted exactly when it was
    clicked an odd number of times. *)
Theorem highlighted_iff_odd_clicks (spanIds : list string) (spanId : string) :
  In spanId (clicks spanIds initial_highlights) <->
  Nat.odd (count_occ string_dec spanIds spanId) = true.
Proof.
  rewrite <- includes_In, includes_clicks. cbn. reflexivity.
Qed.

Lemma filter_absent (highlights : list string) (spanId : string) :
  ~ In spanId highlights ->
  List.filter (fun s => negb (String.eqb s spanId)) highlights = highlights.
Proof.
  induction highlights as [|a h IH]; intros Hnin; [reflexivity|].
  cbn. destruct (String.eqb_spec a spanId) as [->|Hne]; cbn.
  - exfalso. apply Hnin. now left.
  - f_equal. apply IH. intros H. apply Hnin. now right.
Qed.

(** X17: clicking a span that is not highlighted and then clicking it
    again gives back the very same list, in the same order. *)
Theorem toggle_on_then_off (highlights : list string) (spanId : string) :
  ~ In spanId highlights ->
  mermaidToggleSpan (mermaidToggleSpan highlights spanId) spanId = highlights.
Proof.
  intros Hnin. unfold mermaidToggleSpan at 2.
  rewrite (proj2 (includes_false highlights spanId) Hnin).
  unfold mermaidToggleSpan.
  rewrite (proj2 (includes_In (highlights ++ [spanId]) spanId))
    by (apply in_or_app; right; now left).
  rewrite List.filter_app, (filter_absent highlights spanId Hnin). cbn.
  rewrite String.eqb_refl. cbn. apply app_nil_r.
Qed.

End HighlightFacts.

(** ** The further properties at work *)

Section MoreRuns.
Import resource.
Local Open Scope list_scope.

(** [Send_ignores_event_type] at an added and a deleted playlist. *)
Lemma Send_ignores_event_type_witness :
  Send (D := Fixture.deps)
       {| Type_ := DELETED; we_Resource := we_Resource Fixture.good |}
       (Fixture.initialized Fixture.quiet)
  = Send (D := Fixture.deps) Fixture.good (Fixture.initialized Fixture.quiet).
Proof.
  apply (Send_ignores_event_type (D := Fixture.deps)). reflexivity.
Defined.

(** [Send_undecodable_changes_nothing] at the event with an empty value. *)
Lemma Send_undecodable_changes_nothing_witness :
  is_ (snd (Send (D := Fixture.deps) Fixture.bad (Fixture.initialized Fixture.quiet)))
  = is_ (Fixture.initialized Fixture.quiet).
Proof.
  exact (proj1 (proj2 (Send_undecodable_changes_nothing (D := Fixture.deps)
                         Fixture.bad (Fixture.initialized Fixture.quiet)
                         "unexpected end of JSON input" eq_refl))).
Defined.

(** [Send_is_Index_of_document] at a playlist event. *)
Lemma Send_is_Index_of_document_witness :
  fst (Send (D := Fixture.deps) Fixture.good (Fixture.initialized Fixture.quiet))
  = snd (fst (Index (D := Fixture.deps)
                {| req_Key := Some (Fixture.key "playlist.grafana.app"
                                      "playlist.grafana.app/v0alpha1");
                   req_Value :=
                     Some {| ResourceVersion := 2;
                             Value := Fixture.value_of "playlist.grafana.app/v0alpha1" |} |}
                (Fixture.initialized Fixture.quiet))).
Proof.
  exact (proj1 (Send_is_Index_of_document (D := Fixture.deps) Fixture.good
                  (Fixture.initialized Fixture.quiet)
                  {| ApiVersion := "playlist.grafana.app/v0alpha1";
                     Kind := "Playlist";
                     Metadata := {| md_Namespace := "default";
                                    md_Name := "playlist.grafana.app/v0alpha1" |} |}
                  eq_refl)).
Defined.

(** [reinit_forgets_earlier_calls] after a search and two deliveries. *)
Lemma reinit_forgets_earlier_calls_witness :
  let qs := [Req_Search {| Query := "playlist" |};
             Req_Send Fixture.good; Req_Send Fixture.bad] in
  fst (Index (D := Fixture.deps) init_request
         (serve_all qs (Fixture.initialized Fixture.quiet)))
  = fst (Index (D := Fixture.deps) init_request (Fixture.initialized Fixture.quiet)).
Proof.
  cbv zeta.
  exact (proj2 (reinit_forgets_earlier_calls (D := Fixture.deps) _ init_request
                  (Fixture.initialized Fixture.quiet) eq_refl)).
Defined.

(** [getGroup_of_group_and_version] at a playlist's apiVersion. *)
Lemma getGroup_of_group_and_version_witness :
  getGroup {| ApiVersion := "playlist.grafana.app/v0alpha1";
              Kind := "Playlist";
              Metadata := {| md_Namespace := "default"; md_Name := "p1" |} |}
  = "playlist.grafana.app".
Proof.
  apply (getGroup_of_group_and_version _ "playlist.grafana.app" "v0alpha1");
    [|reflexivity].
  intros n. do 20 (destruct n as [|n]; [discriminate|]). destruct n; discriminate.
Defined.

(** [NewResourceServer_facade_options] in plain mode. *)
Lemma NewResourceServer_facade_options_witness :
  exists opts,
    sql.resource_NewResourceServer (Env := Fixture.env) opts = Ok Fixture.quiet /\
    sql.Backend opts = Some Fixture.quiet /\
    sql.Index_ opts = None.
Proof.
  destruct (NewResourceServer_facade_options (E := Fixture.env)
              Fixture.quiet tt false tt Fixture.quiet eq_refl)
    as (eDB & store & srv0 & opts & Hdb & Hb & Hnew & _ & Hback & _ & _ & Hidx & Hsrv).
  exists opts. rewrite <- (Hsrv eq_refl) in Hnew.
  injection Hdb as <-. injection Hb as <-.
  split; [exact Hnew|]. split; [exact Hback|exact Hidx].
Defined.

(** [toggle_on_then_off] with two spans highlighted and a third clicked. *)
Lemma toggle_on_then_off_witness :
  MermaidExportModal.mermaidToggleSpan
    (MermaidExportModal.mermaidToggleSpan ["span-a"; "span-b"] "span-c") "span-c"
  = ["span-a"; "span-b"].
Proof.
  apply toggle_on_then_off.
  intros [H|[H|[]]]; discriminate H.
Defined.

End MoreRuns.
